(** * 8-ary 3D signal simulation: a shallow embedding of [main.py]

    The script places 8 symbols on the corners of a cube of half side [A],
    draws [N] random symbols, adds Gaussian noise of standard deviation
    [sqrt (N0 / 2)], detects each received point by nearest constellation
    point and counts the symbol errors.

    The arithmetic of the script is numpy's [float64].  The embedding is
    written once over an interface [Scalar] holding exactly the operations
    the script uses, and instantiated twice: at the binary64 floats of the
    kernel, the numbers the script computes with, and at the real numbers.
    What depends on rounding (which point the detector picks, the decision
    map, its grid, a run without noise) is stated and proved in binary64;
    the real numbers serve only for statements that rounding does not
    touch. *)

From Stdlib Require Import Floats.
From Stdlib Require Import List Arith Bool Lia ZArith QArith.
From Stdlib Require Import Reals Lra Psatz.
Import ListNotations.

Close Scope Q_scope.

Set Implicit Arguments.

(** ** Scalars *)

Class Scalar (F : Type) : Type := {
  fzero : F;
  fadd : F -> F -> F;
  fsub : F -> F -> F;
  fmul : F -> F -> F;
  fdiv : F -> F -> F;
  fneg : F -> F;
  fsqrt : F -> F;
  (** [a <= b] *)
  fleb : F -> F -> bool;
  (** [a == b] *)
  feqb : F -> F -> bool;
  (** [np.isnan] *)
  fisnan : F -> bool;
  (** conversion of a Python [int] *)
  of_nat : nat -> F
}.

(** ** Errors: a Python exception aborts the script *)

Definition bind {X Y : Type} (m : option X) (k : X -> option Y) : option Y :=
  match m with
  | Some x => k x
  | None => None
  end.

Notation "x <- m ;; k" := (bind m (fun x => k))
  (at level 61, m at next level, right associativity).

Fixpoint mapM {X Y : Type} (f : X -> option Y) (l : list X) : option (list Y) :=
  match l with
  | [] => Some []
  | x :: t => y <- f x ;; ys <- mapM f t ;; Some (y :: ys)
  end.

(** ** itertools.product

    [product pool repeat] follows the reference implementation of
    [itertools.product(pool, repeat=n)]:
    [result = [[]]], then for each of the [n] pools
    [result = [x + [y] for x in result for y in pool]]. *)

Fixpoint product {T : Type} (pool : list T) (repeat : nat) : list (list T) :=
  match repeat with
  | 0 => [[]]
  | S k => flat_map (fun x => map (fun y => x ++ [y]) pool) (product pool k)
  end.

Section Model.

Context {F : Type} {SF : Scalar F}.

(** A row of an [(n, 3)] array. *)
Definition vec3 : Type := (F * F * F)%type.

Definition vx (v : vec3) : F := fst (fst v).
Definition vy (v : vec3) : F := snd (fst v).
Definition vz (v : vec3) : F := snd v.

Definition vadd (a b : vec3) : vec3 :=
  (fadd (vx a) (vx b), fadd (vy a) (vy b), fadd (vz a) (vz b)).

Definition vsub (a b : vec3) : vec3 :=
  (fsub (vx a) (vx b), fsub (vy a) (vy b), fsub (vz a) (vz b)).

(** [v[j]] for [j] in 0, 1, 2. *)
Definition coord (j : nat) (v : vec3) : F :=
  match j with
  | 0 => vx v
  | 1 => vy v
  | _ => vz v
  end.

(** ** Step 1: parameters *)

Definition M : nat := 8.

Definition noise_var (N0 : F) : F := fdiv N0 (of_nat 2).

Definition sigma (N0 : F) : F := fsqrt (noise_var N0).

(** ** Step 2: constellation points *)

Definition points (A : F) : list (list F) := product [fneg A; A] 3.

(** [np.array] of a list of 3-tuples: one [vec3] per tuple.  Every tuple of
    [points A] has three entries ([points_shape] below), so the last branch
    is never taken. *)
Definition row3 (t : list F) : vec3 :=
  match t with
  | [x; y; z] => (x, y, z)
  | _ => (fzero, fzero, fzero)
  end.

Definition const_points (A : F) : list vec3 := map row3 (points A).

(** ** Step 5: ML detection *)

(** [np.linalg.norm] of one row: the square root of the sum of the squares. *)
Definition norm (v : vec3) : F :=
  fsqrt (fadd (fadd (fmul (vx v) (vx v)) (fmul (vy v) (vy v)))
              (fmul (vz v) (vz v))).

(** [np.argmin]: the index of the first occurrence of the minimum, a NaN
    counting as the minimum.  The scan keeps the best value [mp] seen so far
    and moves to index [i] only when [mp <= x] fails, which it does when [x]
    is smaller and when [x] is a NaN; it stops as soon as [mp] is a NaN.  On
    an empty array numpy raises [ValueError]. *)
Fixpoint argmin_from (mp : F) (min_ind i : nat) (l : list F) : nat :=
  match l with
  | [] => min_ind
  | x :: t =>
      if fisnan mp then min_ind
      else if fleb mp x then argmin_from mp min_ind (S i) t
      else argmin_from x i (S i) t
  end.

Definition argmin (l : list F) : option nat :=
  match l with
  | [] => None
  | x :: t => Some (argmin_from x 0 1 t)
  end.

(** [const - r], the row [r] broadcast over the rows of [const]. *)
Definition sub_row (const : list vec3) (r : vec3) : list vec3 :=
  map (fun c => vsub c r) const.

(** [np.linalg.norm(m, axis=1)] *)
Definition norm_axis1 (m : list vec3) : list F := map norm m.

Fixpoint detect (received const : list vec3) : option (list nat) :=
  match received with
  | [] => Some []
  | r :: rest =>
      let dist := norm_axis1 (sub_row const r) in
      idx <- argmin dist ;;
      detected <- detect rest const ;;
      Some (idx :: detected)
  end.

(** ** Step 3: random symbols

    The global generator of [np.random] is threaded through the script as an
    explicit state.  Nothing of the generator is in the repository: it is
    taken as an interface with the two draws the script consumes, a uniform
    integer below a bound and a standard normal sample. *)

Record RandomState : Type := {
  rng : Type;
  draw_below : nat -> rng -> nat * rng;
  draw_below_lt : forall high g, 0 < high -> fst (draw_below high g) < high;
  draw_gauss : rng -> F * rng
}.

Variable RS : RandomState.

(** [np.random.randint(low, high, size)]: [size] draws from [low, high). *)
Fixpoint randint (low high size : nat) (g : rng RS) : list nat * rng RS :=
  match size with
  | 0 => ([], g)
  | S k =>
      let (x, g1) := draw_below RS (high - low) g in
      let (xs, g2) := randint low high k g1 in
      (low + x :: xs, g2)
  end.

(** [const_points[tx_index]]: one row per index; an index outside the array
    raises [IndexError]. *)
Definition take (const : list vec3) (index : list nat) : option (list vec3) :=
  mapM (fun i => nth_error const i) index.

(** ** Step 4: noise

    [np.random.normal(loc, scale, shape)] fills the array in row order, each
    entry being [loc + scale * z] for a fresh standard normal [z]. *)

Definition normal1 (loc scale : F) (g : rng RS) : F * rng RS :=
  let (z, g1) := draw_gauss RS g in (fadd loc (fmul scale z), g1).

Definition normal_row (loc scale : F) (g : rng RS) : vec3 * rng RS :=
  let (x, g1) := normal1 loc scale g in
  let (y, g2) := normal1 loc scale g1 in
  let (z, g3) := normal1 loc scale g2 in
  ((x, y, z), g3).

Fixpoint normal (loc scale : F) (rows : nat) (g : rng RS)
  : list vec3 * rng RS :=
  match rows with
  | 0 => ([], g)
  | S k =>
      let (r, g1) := normal_row loc scale g in
      let (rs, g2) := normal loc scale k g1 in
      (r :: rs, g2)
  end.

(** [tx_data + noise] for two arrays of the same shape. *)
Fixpoint add_rows (a b : list vec3) : list vec3 :=
  match a, b with
  | x :: a', y :: b' => vadd x y :: add_rows a' b'
  | _, _ => []
  end.

(** ** Step 6: error rate *)

Fixpoint ne_rows (a b : list nat) : list bool :=
  match a, b with
  | x :: a', y :: b' => negb (x =? y) :: ne_rows a' b'
  | _, _ => []
  end.

(** [tx_index != rx_index] on 1-D arrays: elementwise when the lengths
    agree, one element broadcast against the other array when a length is 1,
    and a [ValueError] otherwise. *)
Definition not_equal (a b : list nat) : option (list bool) :=
  if length a =? length b then Some (ne_rows a b)
  else match a, b with
       | [x], _ => Some (map (fun y => negb (x =? y)) b)
       | _, [y] => Some (map (fun x => negb (x =? y)) a)
       | _, _ => None
       end.

(** [np.sum] of a boolean array: the number of [True] entries. *)
Definition np_sum (l : list bool) : nat :=
  fold_left (fun acc (b : bool) => if b then S acc else acc) l 0.

Definition error_count (tx rx : list nat) : option nat :=
  ne <- not_equal tx rx ;; Some (np_sum ne).

Definition error_rate (errors N : nat) : F := fdiv (of_nat errors) (of_nat N).

(** ** The script, steps 1 to 6 *)

Record Run : Type := {
  tx_index : list nat;
  tx_data : list vec3;
  noise : list vec3;
  rx_data : list vec3;
  rx_index : list nat;
  errors : nat;
  Pe : F
}.

Definition simulate (A N0 : F) (N : nat) (g : rng RS) : option Run :=
  let const := const_points A in
  let (txi, g1) := randint 0 M N g in
  txd <- take const txi ;;
  let (nz, g2) := normal (of_nat 0) (sigma N0) (length txd) g1 in
  let rxd := add_rows txd nz in
  rxi <- detect rxd const ;;
  e <- error_count txi rxi ;;
  Some {| tx_index := txi; tx_data := txd; noise := nz; rx_data := rxd;
          rx_index := rxi; errors := e; Pe := error_rate e N |}.

(** ** Step 10: decision boundaries on the slice z = 0 *)

(** [np.linspace(start, stop, num)] with the end point included.  With
    [div = num - 1], [delta = stop - start] and [step = delta / div], the
    entries are [arange(0, num) * step + start]; when [step == 0] (a
    denormal [delta]) numpy computes [arange(0, num) / div * delta + start]
    instead, and when [div = 0] it computes [arange(0, num) * delta + start].
    The last entry is then overwritten by [stop]. *)
Definition linspace (start stop : F) (num : nat) : list F :=
  let div := num - 1 in
  let delta := fsub stop start in
  let y := map of_nat (seq 0 num) in
  let y :=
    if 0 <? div then
      let step := fdiv delta (of_nat div) in
      if feqb step fzero then
        map (fun k => fmul (fdiv k (of_nat div)) delta) y
      else map (fun k => fmul k step) y
    else map (fun k => fmul k delta) y in
  let y := map (fun v => fadd v start) y in
  if 1 <? num then removelast y ++ [stop] else y.

Definition grid (A : F) : list F :=
  linspace (fmul (fneg (of_nat 2)) A) (fmul (of_nat 2) A) 200.

(** [np.stack((X.flatten(), Y.flatten(), Z.flatten()), axis=1)] for
    [X, Y = np.meshgrid(g, g)] and [Z = 0]: row [i * len g + j] is
    [(g[j], g[i], 0)]. *)
Definition all_points (g : list F) : list vec3 :=
  flat_map (fun y => map (fun x => (x, y, of_nat 0)) g) g.

(** [all_points[:, None, :] - const_points[None, :, :]] followed by
    [np.linalg.norm(_, axis=2)]: entry [(p, c)] is the norm of
    [all_points[p] - const_points[c]]. *)
Definition distances (pts const : list vec3) : list (list F) :=
  map (fun p => map (fun c => norm (vsub p c)) const) pts.

(** [np.argmin(distances, axis=1)] *)
Definition argmin_axis1 (d : list (list F)) : option (list nat) :=
  mapM argmin d.

(** [reshape] of a flat array into rows of [cols] entries. *)
Fixpoint reshape {T : Type} (rows cols : nat) (l : list T) : list (list T) :=
  match rows with
  | 0 => []
  | S k => firstn cols l :: reshape k cols (skipn cols l)
  end.

Definition closest (A : F) : option (list (list nat)) :=
  let g := grid A in
  flat <- argmin_axis1 (distances (all_points g) (const_points A)) ;;
  Some (reshape (length g) (length g) flat).

End Model.

Arguments vec3 F : clear implicits.
Arguments RandomState F : clear implicits.
Arguments Run F : clear implicits.

(** ** Reading the constellation by sign pattern

    These two definitions are not taken from the script: they say what the
    enumeration order of [const_points] is compared with.  [signed A s] is
    [+A] when [s] is set and [-A] otherwise; [corner A i] reads the three
    signs from the binary digits of [i], most significant digit first. *)

Definition signed {F : Type} {SF : Scalar F} (A : F) (s : bool) : F :=
  if s then A else fneg A.

Definition corner {F : Type} {SF : Scalar F} (A : F) (i : nat) : vec3 F :=
  (signed A (Nat.testbit i 2), signed A (Nat.testbit i 1),
   signed A (Nat.testbit i 0)).

(** ** The two instances *)

(** Real numbers: exact arithmetic, without rounding, overflow, underflow
    or NaN, in which [sqrt] of a negative number and division by 0 are
    total.  This instance is the arithmetic the specification reasons in; it
    is not the arithmetic of the script, and it is used only for statements
    that do not depend on how float64 rounds. *)
Definition Rleb (a b : R) : bool := if Rle_dec a b then true else false.

Definition Reqb (a b : R) : bool := if Req_dec_T a b then true else false.

#[export] Instance R_scalar : Scalar R := {
  fzero := 0%R;
  fadd := Rplus;
  fsub := Rminus;
  fmul := Rmult;
  fdiv := Rdiv;
  fneg := Ropp;
  fsqrt := sqrt;
  fleb := Rleb;
  feqb := Reqb;
  fisnan := fun _ => false;
  of_nat := INR
}.

(** Binary64 floats, numpy's [float64]. *)
Definition float_of_nat (n : nat) : float :=
  PrimFloat.of_uint63 (Uint63.of_Z (Z.of_nat n)).

#[export] Instance float_scalar : Scalar float := {
  fzero := 0%float;
  fadd := PrimFloat.add;
  fsub := PrimFloat.sub;
  fmul := PrimFloat.mul;
  fdiv := PrimFloat.div;
  fneg := PrimFloat.opp;
  fsqrt := PrimFloat.sqrt;
  fleb := PrimFloat.leb;
  feqb := PrimFloat.eqb;
  fisnan := PrimFloat.is_nan;
  of_nat := float_of_nat
}.

(** ** What the script is compared with *)


(** The number of positions where two sequences differ, as the
    specification counts the symbol errors; not taken from the script, which
    sums a boolean array. *)
Definition differing_positions (tx rx : list nat) : nat :=
  length (filter (fun i => negb (nth i tx 0 =? nth i rx 0))
                 (seq 0 (length tx))).

(** The distance [np.linalg.norm(c - r)] as binary64 computes it, written
    on the coordinates: every difference, square, sum and the square root
    is rounded. *)
Definition computed_distance (c r : vec3 float) : float :=
  PrimFloat.sqrt
    (PrimFloat.add
       (PrimFloat.add
          (PrimFloat.mul (PrimFloat.sub (vx c) (vx r))
                         (PrimFloat.sub (vx c) (vx r)))
          (PrimFloat.mul (PrimFloat.sub (vy c) (vy r))
                         (PrimFloat.sub (vy c) (vy r))))
       (PrimFloat.mul (PrimFloat.sub (vz c) (vz r))
                      (PrimFloat.sub (vz c) (vz r)))).

(** The rational number a finite binary64 value stands for, read from its
    sign, mantissa and exponent; 0 for an infinity or a NaN. *)
Definition exact (x : float) : Q :=
  match Prim2SF x with
  | S754_finite s m e =>
      Qmult (if s then Qopp (inject_Z (Zpos m)) else inject_Z (Zpos m))
            (Qpower (2 # 1) e)
  | _ => 0%Q
  end.

(** The square of the Euclidean distance between two points with binary64
    coordinates, computed without rounding.  Squares order as distances do. *)
Definition exact_sqdist (p q : vec3 float) : Q :=
  let d (a b : float) := Qminus (exact a) (exact b) in
  Qplus (Qplus (Qmult (d (vx p) (vx q)) (d (vx p) (vx q)))
               (Qmult (d (vy p) (vy q)) (d (vy p) (vy q))))
        (Qmult (d (vz p) (vz q)) (d (vz p) (vz q))).

(** The label of the quadrant of the grid point of row [i] and column [j]:
    4 for a column in the upper half of the grid, plus 2 for a row in the
    upper half.  Not taken from the script. *)
Definition quadrant (i j : nat) : nat :=
  (if 100 <=? j then 4 else 0) + (if 100 <=? i then 2 else 0).

(** Two checks of a grid, run on its abscissas: every entry is smaller
    than the entries after it; no entry is 0 and all lie between two
    bounds.  Not taken from the script. *)
Definition grid_increasing (g : list float) : bool :=
  forallb (fun j =>
    forallb (fun k =>
      if j <? k then PrimFloat.ltb (nth j g nan) (nth k g nan) else true)
      (seq 0 (length g)))
    (seq 0 (length g)).

Definition grid_inside (lo hi : float) (g : list float) : bool :=
  forallb (fun x => negb (PrimFloat.eqb x 0) && PrimFloat.leb lo x
                    && PrimFloat.leb x hi) g.

(** The NaN of the specification of binary64. *)
Definition SFis_nan (s : spec_float) : bool :=
  match s with S754_nan => true | _ => false end.

(** What [np.argmin] is documented to return on a list [l]: the index [i]
    of the first occurrence of the least entry, every entry being at least
    [l[i]] and every earlier entry strictly more; or, when [l] holds a NaN,
    the index of the first NaN. *)
Definition first_minimum {F : Type} {SF : Scalar F} (l : list F) (i : nat)
  : Prop :=
  exists m, nth_error l i = Some m /\
    ((fisnan m = false /\
      (forall j x, nth_error l j = Some x -> fleb m x = true) /\
      (forall j x, j < i -> nth_error l j = Some x -> fleb x m = false))
     \/
     (fisnan m = true /\
      (forall j x, j < i -> nth_error l j = Some x -> fisnan x = false))).

(** The laws of [<=] the scan of [argmin] relies on: a total preorder on
    the values that are not NaN, and false on a NaN. *)
Class LeOrder {F : Type} (SF : Scalar F) : Prop := {
  fleb_refl : forall x, fisnan x = false -> fleb x x = true;
  fleb_trans : forall x y z,
    fleb x y = true -> fleb y z = true -> fleb x z = true;
  fleb_total : forall x y,
    fisnan x = false -> fisnan y = false -> fleb x y = false ->
    fleb y x = true;
  fleb_nan_r : forall x y, fisnan y = true -> fleb x y = false
}.

(** ** The configuration of the script

    [A = 0.01] and [N0 = 2e-4]: the literals are read as the nearest
    binary64 values, written here in hexadecimal. *)
Definition A_cfg : float := 0x1.47ae147ae147bp-7%float.
Definition N0_cfg : float := 0x1.a36e2eb1c432dp-13%float.

(** The zero noise vector in binary64. *)
Definition zero3 : vec3 float := (0%float, 0%float, 0%float).

(** A small linear congruential generator, to run the script on. *)
Definition lcg_next (s : nat) : nat := (s * 75 + 74) mod 251.

Definition lcg_below_lt (high s : nat) (H : 0 < high)
  : fst (s mod high, lcg_next s) < high :=
  Nat.mod_upper_bound s high (proj2 (Nat.neq_0_lt_0 high) H).

Definition lcg_float : RandomState float := {|
  rng := nat;
  draw_below := fun high s => (s mod high, lcg_next s);
  draw_below_lt := lcg_below_lt;
  draw_gauss := fun s =>
    (PrimFloat.div (PrimFloat.sub (float_of_nat (s mod 7)) 3) 2, lcg_next s)
|}.

Definition lcg_R : RandomState R := {|
  rng := nat;
  draw_below := fun high s => (s mod high, lcg_next s);
  draw_below_lt := lcg_below_lt;
  draw_gauss := fun s => ((INR (s mod 7) - 3) / 2, lcg_next s)%R
|}.

(** * Properties *)

(** ** The error monad *)

Lemma mapM_total {X Y : Type} (f : X -> option Y) (g : X -> Y) (l : list X) :
  (forall x, In x l -> f x = Some (g x)) -> mapM f l = Some (map g l).
Proof.
  induction l as [| x t IH]; intros H; simpl.
  - reflexivity.
  - rewrite (H x (or_introl eq_refl)). simpl.
    rewrite IH by (intros y Hy; apply H; right; exact Hy).
    reflexivity.
Qed.

Lemma mapM_length {X Y : Type} (f : X -> option Y) (l : list X) (r : list Y) :
  mapM f l = Some r -> length r = length l.
Proof.
  revert r; induction l as [| x t IH]; intros r; simpl.
  - intros [= <-]. reflexivity.
  - destruct (f x) as [y |]; simpl; [| discriminate].
    destruct (mapM f t) as [ys |]; simpl; [| discriminate].
    intros [= <-]. simpl. f_equal. apply IH. reflexivity.
Qed.

Lemma mapM_nth {X Y : Type} (f : X -> option Y) (l : list X) (r : list Y) :
  mapM f l = Some r ->
  forall k x, nth_error l k = Some x ->
  exists y, nth_error r k = Some y /\ f x = Some y.
Proof.
  revert r; induction l as [| a t IH]; intros r; simpl.
  - intros _ [| k] x; discriminate.
  - destruct (f a) as [y |] eqn:Ha; simpl; [| discriminate].
    destruct (mapM f t) as [ys |]; simpl; [| discriminate].
    intros [= <-] [| k] x; simpl.
    + intros [= <-]. exists y. split; [reflexivity | exact Ha].
    + intros Hk. apply (IH ys eq_refl k x Hk).
Qed.

(** ** Constellation *)

Section Constellation.

Context {F : Type} {SF : Scalar F}.

(** The tuples of [points A], in the order [itertools.product] yields them. *)
Lemma points_eq (A : F) :
  points A =
  [ [fneg A; fneg A; fneg A]; [fneg A; fneg A; A];
    [fneg A; A; fneg A];      [fneg A; A; A];
    [A; fneg A; fneg A];      [A; fneg A; A];
    [A; A; fneg A];           [A; A; A] ].
Proof. reflexivity. Qed.

Lemma points_shape (A : F) : Forall (fun t => length t = 3) (points A).
Proof. rewrite points_eq. repeat constructor. Qed.

Lemma const_points_eq (A : F) :
  const_points A =
  [ (fneg A, fneg A, fneg A); (fneg A, fneg A, A);
    (fneg A, A, fneg A);      (fneg A, A, A);
    (A, fneg A, fneg A);      (A, fneg A, A);
    (A, A, fneg A);           (A, A, A) ].
Proof. reflexivity. Qed.

Lemma const_points_length (A : F) : length (const_points A) = M.
Proof. reflexivity. Qed.

Lemma const_points_corner (A : F) :
  const_points A = map (corner A) (seq 0 8).
Proof. reflexivity. Qed.

Lemma const_points_nth (A : F) (i : nat) :
  i < 8 -> nth_error (const_points A) i = Some (corner A i).
Proof.
  intros Hi. rewrite const_points_corner.
  rewrite nth_error_map, nth_error_seq.
  apply Nat.ltb_lt in Hi. rewrite Hi. reflexivity.
Qed.

Lemma const_points_nth_inv (A : F) (i : nat) (c : vec3 F) :
  nth_error (const_points A) i = Some c -> i < 8 /\ c = corner A i.
Proof.
  intros H. assert (Hi : i < 8).
  { change 8 with (length (const_points A)).
    apply nth_error_Some. congruence. }
  split; [exact Hi |].
  rewrite (const_points_nth A Hi) in H. congruence.
Qed.

Lemma take_corners (A : F) (tx : list nat) :
  Forall (fun i => i < 8) tx ->
  take (const_points A) tx = Some (map (corner A) tx).
Proof.
  intros H. unfold take. apply mapM_total.
  intros i Hi. apply const_points_nth.
  rewrite Forall_forall in H. apply H. exact Hi.
Qed.

End Constellation.

(** ** Constellation over the reals *)

Open Scope R_scope.

Ltac unfold_R :=
  cbv [fzero fadd fsub fmul fdiv fneg fsqrt fleb feqb fisnan of_nat R_scalar
       vx vy vz vadd vsub coord signed corner fst snd] in *.

(** Case analysis on an index below 8. *)
Ltac index_cases i H :=
  let E := fresh "E" in
  assert (E : (i = 0 \/ i = 1 \/ i = 2 \/ i = 3 \/
               i = 4 \/ i = 5 \/ i = 6 \/ i = 7)%nat) by lia;
  clear H;
  destruct E as [E | [E | [E | [E | [E | [E | [E | E]]]]]]]; subst i.

(** C10: the enumeration is lexicographic with [-A] before [+A]: the point
    of index 0 is [(-A, -A, -A)], the point of index 7 is [(A, A, A)], and
    coordinate [j] of the point of index [i] is [+A] exactly when bit
    [2 - j] of [i] is set. *)
Theorem const_points_lexicographic (A : R) :
  0 < A ->
  nth_error (const_points A) 0 = Some (- A, - A, - A) /\
  nth_error (const_points A) 7 = Some (A, A, A) /\
  forall i, (i < 8)%nat ->
    exists p, nth_error (const_points A) i = Some p /\
      forall j, (j < 3)%nat ->
        (coord j p = A <-> Nat.testbit i (2 - j) = true).
Proof.
  intros HA. split; [reflexivity |]. split; [reflexivity |].
  intros i Hi. exists (corner A i). split; [apply const_points_nth; exact Hi |].
  intros j Hj.
  assert (Hsig : forall b : bool, signed A b = A <-> b = true).
  { intros [|]; unfold_R; split; intros H; try reflexivity; try discriminate.
    exfalso; lra. }
  destruct j as [| [| [| j]]]; try lia; simpl; apply Hsig.
Qed.

Lemma const_points_lexicographic_witness :
  nth_error (const_points 1) 0 = Some (- 1, - 1, - 1) /\
  nth_error (const_points 1) 7 = Some (1, 1, 1) /\
  forall i, (i < 8)%nat ->
    exists p, nth_error (const_points 1) i = Some p /\
      forall j, (j < 3)%nat ->
        (coord j p = 1 <-> Nat.testbit i (2 - j) = true).
Proof. apply (const_points_lexicographic (A := 1)). lra. Defined.

(** C2: for an amplitude [A > 0] the constellation has exactly 8 points,
    every coordinate of every point is [-A] or [+A], each of the 8 sign
    patterns is the point of exactly one index, and the points
    [(-A, -A, -A)] and [(A, A, A)] are among them. *)
Theorem const_points_cube (A : R) :
  0 < A ->
  length (const_points A) = 8%nat /\
  (forall p, In p (const_points A) ->
     (vx p = - A \/ vx p = A) /\ (vy p = - A \/ vy p = A) /\
     (vz p = - A \/ vz p = A)) /\
  (forall sx sy sz : bool,
     exists! i, nth_error (const_points A) i
                = Some (signed A sx, signed A sy, signed A sz)) /\
  In (- A, - A, - A) (const_points A) /\
  In (A, A, A) (const_points A).
Proof.
  intros HA. split; [reflexivity |]. split; [| split].
  - intros p Hp. rewrite const_points_eq in Hp. simpl in Hp.
    repeat (destruct Hp as [<- | Hp]; [unfold_R; auto |]). contradiction.
  - intros sx sy sz.
    exists ((if sx then 4 else 0) + (if sy then 2 else 0)
            + (if sz then 1 else 0))%nat.
    split.
    + destruct sx, sy, sz; reflexivity.
    + intros j Hj. apply const_points_nth_inv in Hj. destruct Hj as [Hj Hc].
      index_cases j Hj;
        destruct sx, sy, sz; try reflexivity; exfalso;
        unfold_R; simpl in Hc; injection Hc; intros; lra.
  - split; rewrite const_points_eq; simpl; unfold_R; auto 10.
Qed.

Lemma const_points_cube_witness :
  length (const_points 1) = 8%nat /\
  (forall p, In p (const_points 1) ->
     (vx p = - 1 \/ vx p = 1) /\ (vy p = - 1 \/ vy p = 1) /\
     (vz p = - 1 \/ vz p = 1)) /\
  (forall sx sy sz : bool,
     exists! i, nth_error (const_points 1) i
                = Some (signed 1 sx, signed 1 sy, signed 1 sz)) /\
  In (- 1, - 1, - 1) (const_points 1) /\
  In (1, 1, 1) (const_points 1).
Proof. apply (const_points_cube (A := 1)). lra. Defined.

(** ** Detection *)

Section DetectGeneric.

Context {F : Type} {SF : Scalar F}.

(** The loop of [detect] runs [argmin] once per received point. *)
Lemma detect_mapM (received const : list (vec3 F)) :
  detect received const
  = mapM (fun r => argmin (norm_axis1 (sub_row const r))) received.
Proof.
  induction received as [| r rest IH]; simpl.
  - reflexivity.
  - rewrite IH. reflexivity.
Qed.

Lemma argmin_some (l : list F) : l <> [] -> exists i, argmin l = Some i.
Proof.
  destruct l as [| x t]; [congruence |]. intros _. simpl. eauto.
Qed.

Lemma detect_some (received const : list (vec3 F)) :
  const <> [] -> exists detected, detect received const = Some detected.
Proof.
  intros Hc. rewrite detect_mapM.
  induction received as [| r rest [d IH]]; simpl.
  - eauto.
  - destruct (@argmin_some (norm_axis1 (sub_row const r))) as [i Hi].
    { destruct const; [congruence | discriminate]. }
    rewrite Hi, IH. simpl. eauto.
Qed.

End DetectGeneric.

Lemma norm_vsub_sym (a b : vec3 R) : norm (vsub a b) = norm (vsub b a).
Proof. unfold norm. unfold_R. f_equal. ring. Qed.

(** ** The loop and the distance matrix *)

Lemma mapM_map {X Y Z : Type} (f : Y -> option Z) (g : X -> Y) (l : list X) :
  mapM f (map g l) = mapM (fun x => f (g x)) l.
Proof.
  induction l as [| x t IH]; simpl; [reflexivity |]. rewrite IH. reflexivity.
Qed.

Lemma mapM_ext {X Y : Type} (f g : X -> option Y) (l : list X) :
  (forall x, f x = g x) -> mapM f l = mapM g l.
Proof.
  intros H. induction l as [| x t IH]; simpl; [reflexivity |].
  rewrite H, IH. reflexivity.
Qed.

(** The row of the distance matrix of a point is the distance vector the
    loop computes for it: the two differ by the sign of the difference only,
    which the squares erase. *)
Lemma distances_row (const : list (vec3 R)) (p : vec3 R) :
  map (fun c => norm (vsub p c)) const = norm_axis1 (sub_row const p).
Proof.
  unfold norm_axis1, sub_row. rewrite map_map.
  apply map_ext. intros c. apply norm_vsub_sym.
Qed.

(** C7: on every list of query points and every constellation, the loop of
    [detect] and the row-wise [argmin] of the full distance matrix give the
    same result: the same indices, or an error on the same inputs. *)
Theorem detect_eq_argmin_distances (pts const : list (vec3 R)) :
  detect pts const = argmin_axis1 (distances pts const).
Proof.
  rewrite detect_mapM. unfold argmin_axis1, distances.
  rewrite mapM_map. apply mapM_ext. intros p.
  rewrite distances_row. reflexivity.
Qed.

(** ** The order of binary64

    The comparisons of the kernel floats are specified by [SFcompare] on
    the sign, exponent and mantissa of their arguments.  On the values that
    are not NaN it is a total order. *)

Section Binary64Order.

Local Close Scope R_scope.

Lemma Pcompare_cont_Eq (m1 m2 : positive) :
  Pos.compare_cont Eq m1 m2 = Pos.compare m1 m2.
Proof. reflexivity. Qed.

Lemma SFcompare_refl (s : spec_float) :
  SFis_nan s = false -> SFcompare s s = Some Eq.
Proof.
  destruct s as [[|] | [|] | | [|] m e]; simpl; intros H; try reflexivity;
    try discriminate; rewrite Z.compare_refl, Pcompare_cont_Eq, Pos.compare_refl;
    reflexivity.
Qed.

Lemma SFcompare_some (a b : spec_float) :
  SFis_nan a = false -> SFis_nan b = false -> exists c, SFcompare a b = Some c.
Proof.
  destruct a as [[|] | [|] | | [|] m e], b as [[|] | [|] | | [|] m' e'];
    simpl; intros; try discriminate; eauto.
Qed.

Lemma SFcompare_antisym (a b : spec_float) (c : comparison) :
  SFcompare a b = Some c -> SFcompare b a = Some (CompOpp c).
Proof.
  destruct a as [[|] | [|] | | [|] m e], b as [[|] | [|] | | [|] m' e'];
    simpl; intros H; try discriminate; injection H as <-; try reflexivity;
    rewrite (Z.compare_antisym e e'), !Pcompare_cont_Eq,
      (Pos.compare_antisym m m');
    destruct (e ?= e')%Z; simpl; try reflexivity;
    destruct (m ?= m')%positive; reflexivity.
Qed.

Lemma SFleb_trans (a b c : spec_float) :
  SFleb a b = true -> SFleb b c = true -> SFleb a c = true.
Proof.
  unfold SFleb.
  destruct a as [[|] | [|] | | [|] m1 e1], b as [[|] | [|] | | [|] m2 e2],
    c as [[|] | [|] | | [|] m3 e3];
    simpl; intros H1 H2; try discriminate; try reflexivity;
    rewrite ?Pcompare_cont_Eq in *;
    destruct (Z.compare_spec e1 e2), (Z.compare_spec e2 e3),
      (Z.compare_spec e1 e3); try discriminate; try reflexivity; try lia;
    subst;
    destruct (Pos.compare_spec m1 m2), (Pos.compare_spec m2 m3),
      (Pos.compare_spec m1 m3); simpl in *; try discriminate;
    try reflexivity; try lia.
Qed.

Lemma is_nan_spec (x : float) : is_nan x = SFis_nan (Prim2SF x).
Proof.
  unfold is_nan. rewrite FloatAxioms.eqb_spec. unfold SFeqb.
  destruct (SFis_nan (Prim2SF x)) eqn:E.
  - destruct (Prim2SF x); try discriminate. reflexivity.
  - rewrite SFcompare_refl by exact E. reflexivity.
Qed.

Lemma leb_refl (x : float) : is_nan x = false -> (x <=? x)%float = true.
Proof.
  rewrite is_nan_spec, FloatAxioms.leb_spec. intros H. unfold SFleb.
  rewrite SFcompare_refl by exact H. reflexivity.
Qed.

Lemma leb_trans (x y z : float) :
  (x <=? y)%float = true -> (y <=? z)%float = true -> (x <=? z)%float = true.
Proof. rewrite !FloatAxioms.leb_spec. apply SFleb_trans. Qed.

Lemma leb_false_ltb (x y : float) :
  is_nan x = false -> is_nan y = false ->
  (x <=? y)%float = false -> (y <? x)%float = true.
Proof.
  rewrite !is_nan_spec, FloatAxioms.leb_spec, FloatAxioms.ltb_spec. intros Hx Hy.
  destruct (@SFcompare_some _ _ Hx Hy) as [c Hc].
  unfold SFleb, SFltb. rewrite Hc, (@SFcompare_antisym _ _ _ Hc).
  destruct c; simpl; intros; try discriminate; reflexivity.
Qed.

Lemma ltb_leb (x y : float) : (x <? y)%float = true -> (x <=? y)%float = true.
Proof.
  rewrite FloatAxioms.leb_spec, FloatAxioms.ltb_spec. unfold SFleb, SFltb.
  destruct (SFcompare (Prim2SF x) (Prim2SF y)) as [[| |] |];
    intros; try discriminate; reflexivity.
Qed.

Lemma leb_nan_r (x y : float) : is_nan y = true -> (x <=? y)%float = false.
Proof.
  rewrite is_nan_spec, FloatAxioms.leb_spec. unfold SFleb.
  destruct (Prim2SF y); try discriminate. intros _.
  destruct (Prim2SF x); reflexivity.
Qed.

#[export] Instance float_LeOrder : LeOrder float_scalar.
Proof.
  split.
  - exact leb_refl.
  - exact leb_trans.
  - intros x y Hx Hy H. apply ltb_leb. apply leb_false_ltb; assumption.
  - exact leb_nan_r.
Qed.

End Binary64Order.

(** ** The scan of argmin *)

Section Argmin.

Context {F : Type} {SF : Scalar F} {LO : LeOrder SF}.

Local Close Scope R_scope.

Lemma fleb_true_not_nan (x y : F) : fleb x y = true -> fisnan y = false.
Proof.
  intros H. destruct (fisnan y) eqn:E; [| reflexivity].
  rewrite (fleb_nan_r x y E) in H. discriminate.
Qed.

Lemma argmin_from_nan (l : list F) (mp : F) (min_ind i : nat) :
  fisnan mp = true -> argmin_from mp min_ind i l = min_ind.
Proof. intros H. destruct l; simpl; [| rewrite H]; reflexivity. Qed.

Lemma nth_error_snoc {T : Type} (pre : list T) (x y : T) (j : nat) :
  nth_error (pre ++ [x]) j = Some y ->
  nth_error pre j = Some y \/ (j = length pre /\ y = x).
Proof.
  intros Hj. destruct (Nat.lt_ge_cases j (length pre)) as [Hl | Hl].
  - left. rewrite nth_error_app1 in Hj by exact Hl. exact Hj.
  - right. rewrite nth_error_app2 in Hj by exact Hl.
    destruct (j - length pre) as [| d] eqn:Hd; simpl in Hj.
    + split; [lia | congruence].
    + destruct d; discriminate.
Qed.

(** The scan, with [pre] the entries already read, none of them a NaN. *)
Lemma argmin_from_spec (t pre : list F) (mp : F) (min_ind : nat) :
  nth_error pre min_ind = Some mp ->
  fisnan mp = false ->
  (forall j x, nth_error pre j = Some x -> fleb mp x = true) ->
  (forall j x, j < min_ind -> nth_error pre j = Some x -> fleb x mp = false) ->
  first_minimum (pre ++ t) (argmin_from mp min_ind (length pre) t).
Proof.
  revert pre mp min_ind.
  induction t as [| x t IH]; intros pre mp min_ind Hmp Hnan Hle Hlt.
  - simpl. rewrite app_nil_r. exists mp. split; [exact Hmp |]. left. auto.
  - assert (Hlen : length (pre ++ [x]) = S (length pre)).
    { rewrite length_app. simpl. lia. }
    assert (Happ : (pre ++ [x]) ++ t = pre ++ x :: t).
    { rewrite <- app_assoc. reflexivity. }
    assert (Hin : min_ind < length pre).
    { apply nth_error_Some. congruence. }
    cbn [argmin_from]. rewrite Hnan.
    destruct (fleb mp x) eqn:Hcmp.
    + specialize (IH (pre ++ [x]) mp min_ind).
      rewrite Hlen, Happ in IH. apply IH.
      * rewrite nth_error_app1 by exact Hin. exact Hmp.
      * exact Hnan.
      * intros j y Hj.
        destruct (nth_error_snoc _ _ _ Hj) as [H | [_ ->]]; eauto.
      * intros j y Hjl Hj.
        destruct (nth_error_snoc _ _ _ Hj) as [H | [-> _]]; [eauto | lia].
    + destruct (fisnan x) eqn:Hx.
      * rewrite argmin_from_nan by exact Hx.
        exists x. split.
        { rewrite nth_error_app2 by lia. rewrite Nat.sub_diag. reflexivity. }
        right. split; [exact Hx |]. intros j y Hj Hy.
        rewrite nth_error_app1 in Hy by exact Hj.
        apply (fleb_true_not_nan mp). apply (Hle j). exact Hy.
      * assert (Hxm : fleb x mp = true)
          by (apply fleb_total; assumption).
        specialize (IH (pre ++ [x]) x (length pre)).
        rewrite Hlen, Happ in IH. apply IH.
        -- rewrite nth_error_app2 by lia. rewrite Nat.sub_diag. reflexivity.
        -- exact Hx.
        -- intros j y Hj.
           destruct (nth_error_snoc _ _ _ Hj) as [H | [_ ->]].
           ++ apply (fleb_trans x mp y); [exact Hxm | apply (Hle j); exact H].
           ++ apply fleb_refl. exact Hx.
        -- intros j y Hjl Hj.
           destruct (nth_error_snoc _ _ _ Hj) as [H | [-> _]]; [| lia].
           destruct (fleb y x) eqn:Hyx; [| reflexivity].
           rewrite (fleb_trans mp y x (Hle j y H) Hyx) in Hcmp. discriminate.
Qed.

(** [argmin] returns the first minimum of its list. *)
Lemma argmin_first_minimum (l : list F) (i : nat) :
  argmin l = Some i -> first_minimum l i.
Proof.
  destruct l as [| x t]; simpl; [discriminate |]. intros [= <-].
  destruct (fisnan x) eqn:Hx.
  - rewrite argmin_from_nan by exact Hx. exists x. split; [reflexivity |].
    right. split; [exact Hx |]. intros j y Hj. lia.
  - apply (@argmin_from_spec t [x] x 0).
    + reflexivity.
    + exact Hx.
    + intros [| [| j]] y; simpl; try discriminate. intros [= <-].
      apply fleb_refl. exact Hx.
    + intros j y Hj. lia.
Qed.

End Argmin.

(** ** The pipeline *)

Section Pipeline.

Context {F : Type} {SF : Scalar F} (RS : RandomState F).

Lemma randint_length (low high size : nat) (g : rng RS) :
  length (fst (randint RS low high size g)) = size.
Proof.
  revert g; induction size as [| k IH]; intros g; simpl; [reflexivity |].
  destruct (draw_below RS (high - low) g) as [x g1].
  specialize (IH g1). destruct (randint RS low high k g1) as [xs g2].
  simpl in *. rewrite IH. reflexivity.
Qed.

Lemma randint_range (low high size : nat) (g : rng RS) :
  (low < high)%nat ->
  Forall (fun i => (low <= i < high)%nat) (fst (randint RS low high size g)).
Proof.
  intros Hlh. revert g; induction size as [| k IH]; intros g; simpl.
  - constructor.
  - pose proof (@draw_below_lt F RS (high - low)%nat g) as Hd.
    destruct (draw_below RS (high - low) g) as [x g1].
    specialize (IH g1). destruct (randint RS low high k g1) as [xs g2].
    simpl in *. constructor; [| exact IH].
    assert (x < high - low)%nat by (apply Hd; lia). lia.
Qed.

Lemma normal_length (loc scale : F) (rows : nat) (g : rng RS) :
  length (fst (normal RS loc scale rows g)) = rows.
Proof.
  revert g; induction rows as [| k IH]; intros g; simpl; [reflexivity |].
  destruct (normal_row RS loc scale g) as [r g1].
  specialize (IH g1). destruct (normal RS loc scale k g1) as [rs g2].
  simpl in *. rewrite IH. reflexivity.
Qed.

Lemma add_rows_length (a b : list (vec3 F)) :
  length b = length a -> length (add_rows a b) = length a.
Proof.
  revert b; induction a as [| x a IH]; intros [| y b] Hl;
    try discriminate; simpl; [reflexivity |].
  rewrite IH; [reflexivity |]. simpl in Hl. lia.
Qed.

Lemma add_rows_nth (a b : list (vec3 F)) (i : nat) (x y : vec3 F) :
  nth_error a i = Some x -> nth_error b i = Some y ->
  nth_error (add_rows a b) i = Some (vadd x y).
Proof.
  revert b i; induction a as [| x0 a IH]; intros [| y0 b] [| i];
    simpl; try discriminate.
  - intros [= <-] [= <-]. reflexivity.
  - apply IH.
Qed.

Lemma ne_rows_length (a b : list nat) :
  length b = length a -> length (ne_rows a b) = length a.
Proof.
  revert b; induction a as [| x a IH]; intros [| y b] Hl;
    try discriminate; simpl; [reflexivity |].
  rewrite IH; [reflexivity |]. simpl in Hl. lia.
Qed.

Lemma error_count_same_length (tx rx : list nat) :
  length rx = length tx ->
  error_count tx rx = Some (np_sum (ne_rows tx rx)).
Proof.
  intros Hl. unfold error_count, not_equal.
  rewrite Hl, Nat.eqb_refl. reflexivity.
Qed.

Lemma nth_error_lt_some {T : Type} (l : list T) (i : nat) :
  (i < length l)%nat -> exists x, nth_error l i = Some x.
Proof.
  intros H. destruct (nth_error l i) as [x |] eqn:E; [eauto |].
  apply nth_error_None in E. lia.
Qed.

(** The outcome of the script, stage by stage: it never aborts, and its
    arrays are the ones named here. *)
Lemma simulate_eq (A N0 : F) (N : nat) (g : rng RS) :
  exists rxi,
    let txi := fst (randint RS 0 M N g) in
    let txd := map (corner A) txi in
    let nz := fst (normal RS (of_nat 0) (sigma N0) N (snd (randint RS 0 M N g))) in
    detect (add_rows txd nz) (const_points A) = Some rxi /\
    simulate RS A N0 N g
    = Some {| tx_index := txi; tx_data := txd; noise := nz;
              rx_data := add_rows txd nz; rx_index := rxi;
              errors := np_sum (ne_rows txi rxi);
              Pe := error_rate (np_sum (ne_rows txi rxi)) N |}.
Proof.
  unfold simulate.
  pose proof (randint_length 0 M N g) as Hlen.
  pose proof (@randint_range 0 M N g ltac:(unfold M; lia)) as Hrange.
  destruct (randint RS 0 M N g) as [txi g1]. simpl in Hlen, Hrange. simpl fst.
  simpl snd.
  rewrite take_corners.
  2:{ eapply Forall_impl; [| exact Hrange]. unfold M. simpl. intros; lia. }
  simpl bind. rewrite length_map, Hlen.
  pose proof (normal_length (of_nat 0) (sigma N0) N g1) as Hn.
  destruct (normal RS (of_nat 0) (sigma N0) N g1) as [nz g2]. simpl in Hn.
  simpl fst.
  destruct (@detect_some F _ (add_rows (map (corner A) txi) nz)
              (const_points A)) as [rxi Hrxi]; [discriminate |].
  exists rxi. split; [exact Hrxi |]. rewrite Hrxi. simpl bind.
  rewrite error_count_same_length; [reflexivity |].
  rewrite detect_mapM in Hrxi. apply mapM_length in Hrxi.
  rewrite Hrxi, add_rows_length; rewrite length_map; congruence.
Qed.

(** C5: the script runs to its end and its five sequences all have length
    [N]; at every position [i] the transmitted point is the constellation
    point of the transmitted index, the received point is the sum, coordinate
    by coordinate, of the transmitted point and the noise vector, and the
    detected index is the [argmin] of the distances from the constellation
    points to that received point. *)
Theorem simulate_lengths (A N0 : F) (N : nat) (g : rng RS) :
  exists run,
    simulate RS A N0 N g = Some run /\
    length (tx_index run) = N /\ length (tx_data run) = N /\
    length (noise run) = N /\ length (rx_data run) = N /\
    length (rx_index run) = N /\
    forall i, (i < N)%nat ->
      exists t d px py pz nx ny nz,
        nth_error (tx_index run) i = Some t /\
        nth_error (tx_data run) i = Some (px, py, pz) /\
        nth_error (noise run) i = Some (nx, ny, nz) /\
        nth_error (rx_data run) i
        = Some (fadd px nx, fadd py ny, fadd pz nz) /\
        nth_error (rx_index run) i = Some d /\
        nth_error (const_points A) t = Some (px, py, pz) /\
        argmin
          (map (fun c : vec3 F =>
                  let '(cx, cy, cz) := c in
                  fsqrt
                    (fadd
                       (fadd (fmul (fsub cx (fadd px nx)) (fsub cx (fadd px nx)))
                             (fmul (fsub cy (fadd py ny)) (fsub cy (fadd py ny))))
                       (fmul (fsub cz (fadd pz nz)) (fsub cz (fadd pz nz)))))
               (const_points A))
        = Some d.
Proof.
  destruct (simulate_eq A N0 N g) as (rxi & Hrxi & Hrun).
  eexists. split; [exact Hrun |].
  cbn [tx_index tx_data noise rx_data rx_index].
  pose proof (randint_length 0 M N g) as Htx.
  pose proof (@randint_range 0 M N g ltac:(unfold M; lia)) as Hrange.
  pose proof (normal_length (of_nat 0) (sigma N0) N (snd (randint RS 0 M N g)))
    as Hnz.
  set (txi := fst (randint RS 0 M N g)) in *.
  set (nz := fst (normal RS _ _ _ _)) in *.
  assert (Hrx : length (add_rows (map (corner A) txi) nz) = N).
  { rewrite add_rows_length; rewrite length_map; congruence. }
  rewrite detect_mapM in Hrxi.
  assert (Hd : length rxi = N) by (rewrite (mapM_length _ _ Hrxi); exact Hrx).
  rewrite length_map. repeat (split; [assumption |]).
  intros i Hi.
  destruct (@nth_error_lt_some _ txi i) as [t Ht]; [lia |].
  destruct (@nth_error_lt_some _ nz i) as [n Hn]; [lia |].
  assert (Hp : nth_error (map (corner A) txi) i = Some (corner A t)).
  { rewrite nth_error_map, Ht. reflexivity. }
  pose proof (add_rows_nth _ _ _ Hp Hn) as Hr.
  destruct (mapM_nth _ _ Hrxi i Hr) as (d & Hdi & Harg).
  assert (Ht8 : (t < 8)%nat).
  { rewrite Forall_forall in Hrange. apply nth_error_In in Ht.
    specialize (Hrange t Ht). unfold M in Hrange. lia. }
  destruct (corner A t) as [[px py] pz] eqn:Hc.
  destruct n as [[nx ny] nz'].
  exists t, d, px, py, pz, nx, ny, nz'.
  split; [exact Ht |]. split; [exact Hp |]. split; [exact Hn |].
  split; [exact Hr |]. split; [exact Hdi |].
  split; [rewrite <- Hc; apply const_points_nth; exact Ht8 |].
  rewrite <- Harg. apply f_equal. unfold norm_axis1, sub_row.
  rewrite map_map.
  apply map_ext. intros [[cx cy] cz]. reflexivity.
Qed.

End Pipeline.

(** ** Noise level *)

(** C8: the standard deviation is [sqrt (N0 / 2)], and the noise of a run
    is drawn with exactly that scale: [simulate] has no other input from
    which the noise level could come. *)
Theorem sigma_from_N0
  (RS : RandomState R) (A N0 : R) (N : nat) (g : rng RS) :
  noise_var N0 = N0 / 2 /\
  sigma N0 = sqrt (N0 / 2) /\
  exists run,
    simulate RS A N0 N g = Some run /\
    noise run = fst (normal RS 0 (sqrt (N0 / 2)) N (snd (randint RS 0 M N g))).
Proof.
  assert (H2 : noise_var N0 = N0 / 2).
  { unfold noise_var. unfold_R. simpl. reflexivity. }
  assert (Hs : sigma N0 = sqrt (N0 / 2)).
  { unfold sigma. rewrite H2. reflexivity. }
  split; [exact H2 |]. split; [exact Hs |].
  destruct (simulate_eq RS A N0 N g) as (rxi & _ & Hrun).
  eexists. split; [exact Hrun |]. cbn [noise]. rewrite Hs. reflexivity.
Qed.

(** ** Error accounting *)

Lemma np_sum_acc (l : list bool) (acc : nat) :
  fold_left (fun a (b : bool) => if b then S a else a) l acc
  = (acc + np_sum l)%nat.
Proof.
  unfold np_sum. revert acc. induction l as [| b l IH]; intros acc; simpl.
  - lia.
  - rewrite IH. rewrite (IH (if b then 1%nat else 0%nat)).
    destruct b; lia.
Qed.

Lemma np_sum_cons (b : bool) (l : list bool) :
  np_sum (b :: l) = ((if b then 1 else 0) + np_sum l)%nat.
Proof. unfold np_sum at 1. simpl. rewrite np_sum_acc. reflexivity. Qed.

Lemma filter_shift_length (f : nat -> bool) (n : nat) :
  length (filter f (seq 1 n))
  = length (filter (fun i => f (S i)) (seq 0 n)).
Proof.
  rewrite <- seq_shift. induction (seq 0 n) as [| a l IH]; simpl.
  - reflexivity.
  - destruct (f (S a)); simpl; rewrite IH; reflexivity.
Qed.

Lemma differing_positions_cons (x y : nat) (tx rx : list nat) :
  differing_positions (x :: tx) (y :: rx)
  = ((if negb (x =? y) then 1 else 0) + differing_positions tx rx)%nat.
Proof.
  unfold differing_positions. simpl length at 2.
  change (seq 0 (S (length tx))) with (0%nat :: seq 1 (length tx)).
  cbn [filter nth]. 
  destruct (negb (x =? y)); simpl length;
    rewrite filter_shift_length; reflexivity.
Qed.

Lemma np_sum_differing (tx rx : list nat) :
  length rx = length tx ->
  np_sum (ne_rows tx rx) = differing_positions tx rx.
Proof.
  revert rx; induction tx as [| x tx IH]; intros [| y rx] Hl;
    try discriminate.
  - reflexivity.
  - cbn [ne_rows]. rewrite np_sum_cons, differing_positions_cons.
    rewrite IH; [reflexivity |]. simpl in Hl. lia.
Qed.

Lemma np_sum_le (l : list bool) : (np_sum l <= length l)%nat.
Proof.
  induction l as [| b l IH]; [unfold np_sum; simpl; lia |].
  rewrite np_sum_cons. simpl. destruct b; lia.
Qed.

(** C4: for two sequences of the same length [N > 0] the error count is
    the number of positions where they differ, it is at most [N], and the
    error rate is the quotient of the count by [N], between 0 and 1. *)
Theorem error_accounting (tx rx : list nat) :
  length rx = length tx ->
  (0 < length tx)%nat ->
  exists e,
    error_count tx rx = Some e /\
    e = differing_positions tx rx /\
    (0 <= e <= length tx)%nat /\
    error_rate e (length tx) = INR e / INR (length tx) /\
    0 <= error_rate e (length tx) <= 1.
Proof.
  intros Hl HN. exists (np_sum (ne_rows tx rx)).
  assert (Hle : (np_sum (ne_rows tx rx) <= length tx)%nat).
  { rewrite <- (@ne_rows_length tx rx Hl). apply np_sum_le. }
  split; [apply error_count_same_length; exact Hl |].
  split; [apply np_sum_differing; exact Hl |].
  split; [lia |]. split; [reflexivity |].
  unfold error_rate. unfold_R.
  assert (H0 : 0 < INR (length tx)) by (apply lt_0_INR; exact HN).
  assert (H1 : 0 <= INR (np_sum (ne_rows tx rx))) by apply pos_INR.
  assert (H2 : INR (np_sum (ne_rows tx rx)) <= INR (length tx))
    by (apply le_INR; exact Hle).
  split.
  - apply Rmult_le_pos; [exact H1 |].
    apply Rlt_le, Rinv_0_lt_compat. exact H0.
  - apply (Rmult_le_reg_r (INR (length tx))); [exact H0 |].
    unfold Rdiv. rewrite Rmult_assoc, Rinv_l by lra. lra.
Qed.

Lemma error_accounting_witness :
  exists e,
    error_count [1; 2; 3; 4]%nat [1; 5; 3; 0]%nat = Some e /\
    e = differing_positions [1; 2; 3; 4]%nat [1; 5; 3; 0]%nat /\
    (0 <= e <= 4)%nat /\
    error_rate e 4 = INR e / INR 4 /\
    0 <= error_rate e 4 <= 1.
Proof.
  apply (@error_accounting [1; 2; 3; 4]%nat [1; 5; 3; 0]%nat).
  - reflexivity.
  - simpl. lia.
Defined.

(** ** Amplitudes that are not positive *)

Lemma const_points_coords (A : R) (p : vec3 R) :
  In p (const_points A) ->
  (vx p = - A \/ vx p = A) /\ (vy p = - A \/ vy p = A) /\
  (vz p = - A \/ vz p = A).
Proof.
  intros Hp. rewrite const_points_eq in Hp. simpl in Hp.
  repeat (destruct Hp as [<- | Hp]; [unfold_R; auto |]). contradiction.
Qed.

(** C9, as the script behaves: an amplitude [A <= 0] is not refused.  The
    generator returns its 8 points, every coordinate being [-A] or [+A],
    and the whole script runs to its end on them. *)
Theorem const_points_unchecked
  (RS : RandomState R) (A N0 : R) (N : nat) (g : rng RS) :
  A <= 0 ->
  length (const_points A) = 8%nat /\
  (forall p, In p (const_points A) ->
     (vx p = - A \/ vx p = A) /\ (vy p = - A \/ vy p = A) /\
     (vz p = - A \/ vz p = A)) /\
  exists run, simulate RS A N0 N g = Some run.
Proof.
  intros _. split; [reflexivity |]. split; [apply const_points_coords |].
  destruct (simulate_eq RS A N0 N g) as (rxi & _ & Hrun). eauto.
Qed.

Lemma const_points_unchecked_witness :
  length (const_points (- 1)) = 8%nat /\
  (forall p, In p (const_points (- 1)) ->
     (vx p = - - 1 \/ vx p = - 1) /\ (vy p = - - 1 \/ vy p = - 1) /\
     (vz p = - - 1 \/ vz p = - 1)) /\
  exists run, simulate lcg_R (- 1) 1 3 5%nat = Some run.
Proof. apply (@const_points_unchecked lcg_R (- 1) 1 3 5%nat). lra. Defined.

(** C9, as the claim states it, fails: at [A = -1] and at [A = 0] the
    generator produces a constellation, and a run on [A = -1] ends without
    an error. *)
Lemma nonpositive_amplitude_accepted :
  const_points (- 1)
  = [ (- - 1, - - 1, - - 1); (- - 1, - - 1, - 1); (- - 1, - 1, - - 1);
      (- - 1, - 1, - 1);     (- 1, - - 1, - - 1); (- 1, - - 1, - 1);
      (- 1, - 1, - - 1);     (- 1, - 1, - 1) ] /\
  const_points 0
  = [ (- 0, - 0, - 0); (- 0, - 0, 0); (- 0, 0, - 0); (- 0, 0, 0);
      (0, - 0, - 0);   (0, - 0, 0);   (0, 0, - 0);   (0, 0, 0) ] /\
  exists run, simulate lcg_R (- 1) 1 3 5%nat = Some run.
Proof.
  split; [reflexivity |]. split; [reflexivity |].
  destruct (simulate_eq lcg_R (- 1) 1 3 5%nat) as (rxi & _ & Hrun). eauto.
Qed.

(** * Further properties of the script *)

(** ** Error count *)

Lemma np_sum_zero (l : list bool) :
  np_sum l = 0%nat <-> Forall (fun b => b = false) l.
Proof.
  induction l as [| b l IH].
  - split; [constructor | reflexivity].
  - rewrite np_sum_cons. split.
    + intros H. destruct b; [simpl in H; lia |].
      constructor; [reflexivity | apply IH; simpl in H; exact H].
    + intros H. inversion H as [| ? ? Hb Hl]; subst. simpl.
      apply IH. exact Hl.
Qed.

Lemma ne_rows_false (tx rx : list nat) :
  length rx = length tx ->
  Forall (fun b => b = false) (ne_rows tx rx) <-> tx = rx.
Proof.
  revert rx; induction tx as [| x tx IH]; intros [| y rx] Hl;
    try discriminate; simpl.
  - split; [reflexivity | constructor].
  - simpl in Hl. injection Hl as Hl. split.
    + intros H. inversion H as [| ? ? Hb Hr]; subst.
      apply negb_false_iff, Nat.eqb_eq in Hb. subst y.
      f_equal. apply IH; assumption.
    + intros [= -> ->]. constructor.
      * rewrite Nat.eqb_refl. reflexivity.
      * apply IH; [exact Hl | reflexivity].
Qed.

(** X4: for two sequences of the same length the error count is 0 exactly
    when the sequences are equal. *)
Theorem error_count_zero_iff (tx rx : list nat) :
  length rx = length tx ->
  (error_count tx rx = Some 0%nat <-> tx = rx).
Proof.
  intros Hl. rewrite (error_count_same_length _ _ Hl). split.
  - intros [= H]. apply np_sum_zero in H. apply ne_rows_false in H; assumption.
  - intros H. f_equal. apply np_sum_zero. apply ne_rows_false; assumption.
Qed.

Lemma error_count_zero_iff_witness :
  error_count [3; 0; 7]%nat [3; 0; 7]%nat = Some 0%nat
  <-> [3; 0; 7]%nat = [3; 0; 7]%nat.
Proof. apply (@error_count_zero_iff [3; 0; 7]%nat [3; 0; 7]%nat). reflexivity. Defined.

(** ** Geometry of the constellation *)




(** ** itertools.product *)

Lemma flat_map_length_const {X Y : Type} (f : X -> list Y) (n : nat) (l : list X) :
  (forall x, length (f x) = n) -> length (flat_map f l) = (length l * n)%nat.
Proof.
  intros H. induction l as [| x t IH]; simpl; [reflexivity |].
  rewrite length_app, H, IH. reflexivity.
Qed.

(** X8: [product pool repeat] has [len(pool) ** repeat] tuples, each of
    [repeat] entries, every entry taken from [pool]. *)
Theorem product_shape {T : Type} (pool : list T) (repeat : nat) :
  length (product pool repeat) = (length pool ^ repeat)%nat /\
  Forall (fun t => length t = repeat /\ Forall (fun x => In x pool) t)
         (product pool repeat).
Proof.
  induction repeat as [| k [IHl IHt]]; simpl.
  - split; [reflexivity |]. repeat constructor.
  - split.
    + rewrite (@flat_map_length_const _ _ _ (length pool)).
      * rewrite IHl. lia.
      * intros x. apply length_map.
    + apply Forall_forall. intros t Ht.
      apply in_flat_map in Ht. destruct Ht as (x & Hx & Ht).
      apply in_map_iff in Ht. destruct Ht as (y & <- & Hy).
      rewrite Forall_forall in IHt. destruct (IHt x Hx) as [Hlen Hin].
      split.
      * rewrite length_app, Hlen. simpl. lia.
      * apply Forall_app. split; [exact Hin |]. constructor; [exact Hy | constructor].
Qed.

(** ** The script's own arithmetic: binary64 *)

Section Float64.

Local Close Scope R_scope.

(** In binary64, at the amplitude of the script, a constellation point
    with a zero noise vector added is detected as itself. *)
Lemma nearest_corner_float (k : nat) :
  k < 8 ->
  argmin (norm_axis1 (sub_row (const_points A_cfg)
                              (vadd (corner A_cfg k) zero3))) = Some k.
Proof.
  intros Hk.
  do 8 (destruct k as [| k]; [vm_compute; reflexivity |]). lia.
Qed.

Lemma add_rows_repeat {F : Type} {SF : Scalar F} (a : list (vec3 F)) (z : vec3 F) :
  add_rows a (repeat z (length a)) = map (fun x => vadd x z) a.
Proof.
  induction a as [| x a IH]; simpl; [reflexivity |]. rewrite IH. reflexivity.
Qed.

(** X9: in the binary64 arithmetic of the script and at its amplitude
    [A = 0.01], every transmit sequence with entries in [0, 8) is detected
    exactly when the noise array is zero. *)
Theorem zero_noise_detect_exact_float (tx : list nat) :
  Forall (fun i => i < 8) tx ->
  exists txd,
    take (const_points A_cfg) tx = Some txd /\
    detect (add_rows txd (repeat zero3 (length txd))) (const_points A_cfg)
    = Some tx.
Proof.
  intros Htx. exists (map (corner A_cfg) tx).
  split; [apply take_corners; exact Htx |].
  rewrite add_rows_repeat, detect_mapM, !mapM_map.
  rewrite <- (map_id tx) at 2. apply mapM_total.
  intros i Hi. apply nearest_corner_float.
  rewrite Forall_forall in Htx. apply Htx. exact Hi.
Qed.

Lemma zero_noise_detect_exact_float_witness :
  exists txd,
    take (const_points A_cfg) [6; 1; 1; 4] = Some txd /\
    detect (add_rows txd (repeat zero3 (length txd))) (const_points A_cfg)
    = Some [6; 1; 1; 4].
Proof.
  apply (@zero_noise_detect_exact_float [6; 1; 1; 4]). repeat constructor.
Defined.

End Float64.

(** ** Indices stay inside the constellation *)

Section Indices.

Context {F : Type} {SF : Scalar F} (RS : RandomState F).

Local Close Scope R_scope.

Lemma argmin_from_lt (l : list F) (mp : F) (min_ind i : nat) :
  min_ind < i -> argmin_from mp min_ind i l < i + length l.
Proof.
  revert mp min_ind i. induction l as [| x t IH]; intros mp min_ind i H; simpl.
  - lia.
  - destruct (fisnan mp); [lia |]. destruct (fleb mp x).
    + specialize (IH mp min_ind (S i)). lia.
    + specialize (IH x i (S i)). lia.
Qed.

Lemma argmin_lt (l : list F) (i : nat) : argmin l = Some i -> i < length l.
Proof.
  destruct l as [| x t]; simpl; [discriminate |]. intros [= <-].
  apply (@argmin_from_lt t x 0 1). lia.
Qed.

Lemma detect_range (received const : list (vec3 F)) (detected : list nat) :
  detect received const = Some detected ->
  Forall (fun i => i < length const) detected.
Proof.
  rewrite detect_mapM. intros H. apply Forall_forall. intros i Hi.
  apply In_nth_error in Hi. destruct Hi as [k Hk].
  assert (Hlen : k < length received).
  { rewrite <- (mapM_length _ _ H). apply nth_error_Some. congruence. }
  destruct (nth_error_lt_some _ Hlen) as [r Hr].
  destruct (mapM_nth _ _ H k Hr) as (i' & Hi' & Harg).
  rewrite Hk in Hi'. injection Hi' as <-.
  apply argmin_lt in Harg.
  unfold norm_axis1, sub_row in Harg. rewrite !length_map in Harg. exact Harg.
Qed.

(** X10: in every run, whatever the arithmetic and the generator, every
    transmitted index and every detected index is below [M = 8], the number
    of constellation points, and the error count is at most [N]. *)
Theorem simulate_indices_in_range (A N0 : F) (N : nat) (g : rng RS) :
  exists run,
    simulate RS A N0 N g = Some run /\
    Forall (fun i => i < M) (tx_index run) /\
    Forall (fun i => i < M) (rx_index run) /\
    errors run <= N.
Proof.
  destruct (simulate_eq RS A N0 N g) as (rxi & Hrxi & Hrun).
  eexists. split; [exact Hrun |]. cbn [tx_index rx_index errors].
  pose proof (@randint_range _ RS 0 M N g ltac:(unfold M; lia)) as Hrange.
  pose proof (randint_length RS 0 M N g) as Htx.
  split; [| split].
  - eapply Forall_impl; [| exact Hrange]. simpl. intros; lia.
  - apply (detect_range _ _ Hrxi).
  - pose proof (np_sum_le (ne_rows (fst (randint RS 0 M N g)) rxi)) as Hle.
    assert (Hne : length (ne_rows (fst (randint RS 0 M N g)) rxi) <= N).
    { clear Hle Hrxi Hrun Hrange. rewrite <- Htx at 2.
      generalize (fst (randint RS 0 M N g)) as a. clear.
      intros a; revert rxi; induction a as [| x a IH]; intros [| y b];
        simpl; try lia. specialize (IH b). lia. }
    lia.
Qed.

End Indices.

(** In binary64 the configured noise level is the configured amplitude:
    [sqrt (2e-4 / 2)] is the float [0.01]. *)
Lemma sigma_cfg : sigma N0_cfg = A_cfg.
Proof. vm_compute. reflexivity. Qed.

(** ** Detection in binary64 *)

Section DetectBinary64.

Local Close Scope R_scope.

Lemma computed_distance_eq (c r : vec3 float) :
  norm (vsub c r) = computed_distance c r.
Proof. reflexivity. Qed.

(** C1, as the claim states it, fails in the arithmetic of the script.  At
    the amplitude 0.01 the received point [(2^-100, 2^-7, 2^-7)] is
    detected as index 3, the corner [(-A, A, A)], although the corner of
    index 7, [(A, A, A)], is strictly nearer: [2^-100 - A] and
    [2^-100 + A] round to [-A] and [A], the two computed distances are
    equal and the lower index wins. *)
Lemma detect_not_nearest_binary64 :
  detect [(0x1p-100, 0x1p-7, 0x1p-7)%float] (const_points A_cfg) = Some [3] /\
  nth_error (const_points A_cfg) 3
  = Some (PrimFloat.opp A_cfg, A_cfg, A_cfg) /\
  nth_error (const_points A_cfg) 7 = Some (A_cfg, A_cfg, A_cfg) /\
  Qcompare
    (exact_sqdist (0x1p-100, 0x1p-7, 0x1p-7)%float (A_cfg, A_cfg, A_cfg))
    (exact_sqdist (0x1p-100, 0x1p-7, 0x1p-7)%float
                  (PrimFloat.opp A_cfg, A_cfg, A_cfg))
  = Lt.
Proof.
  split; [vm_compute; reflexivity |].
  split; [reflexivity |]. split; [reflexivity |].
  vm_compute. reflexivity.
Qed.

(** C1, as the script behaves: for every amplitude and every list of
    received points the detector returns one index per point.  When the
    computed distance of the chosen point is not a NaN, no constellation
    point has a smaller computed distance and every point of lower index
    has a strictly larger one, so ties of computed distances go to the
    lowest index; when it is a NaN, no point of lower index has a NaN
    distance.  The result is a function of the input. *)
Theorem detect_nearest_computed (A : float) (received : list (vec3 float)) :
  exists detected,
    detect received (const_points A) = Some detected /\
    length detected = length received /\
    (forall k r, nth_error received k = Some r ->
       exists i c,
         nth_error detected k = Some i /\
         nth_error (const_points A) i = Some c /\
         ((PrimFloat.is_nan (computed_distance c r) = false /\
           (forall j c', nth_error (const_points A) j = Some c' ->
              PrimFloat.leb (computed_distance c r) (computed_distance c' r)
              = true) /\
           (forall j c', j < i -> nth_error (const_points A) j = Some c' ->
              PrimFloat.ltb (computed_distance c r) (computed_distance c' r)
              = true))
          \/
          (PrimFloat.is_nan (computed_distance c r) = true /\
           (forall j c', j < i -> nth_error (const_points A) j = Some c' ->
              PrimFloat.is_nan (computed_distance c' r) = false)))) /\
    (forall detected',
       detect received (const_points A) = Some detected' ->
       detected' = detected).
Proof.
  destruct (@detect_some float _ received (const_points A)) as [d Hd];
    [discriminate |].
  exists d. split; [exact Hd |].
  rewrite detect_mapM in Hd. split; [apply (mapM_length _ _ Hd) |]. split.
  - intros k r Hk.
    destruct (mapM_nth _ _ Hd k Hk) as (i & Hik & Hi).
    apply argmin_first_minimum in Hi.
    destruct Hi as (m & Hm & Hcases).
    assert (Hnth : forall j,
               nth_error (norm_axis1 (sub_row (const_points A) r)) j
               = option_map (fun c => computed_distance c r)
                            (nth_error (const_points A) j)).
    { intros j. unfold norm_axis1, sub_row.
      rewrite map_map, nth_error_map. reflexivity. }
    rewrite Hnth in Hm.
    destruct (nth_error (const_points A) i) as [c |] eqn:Hc;
      simpl in Hm; [| discriminate].
    injection Hm as <-. exists i, c.
    split; [exact Hik |]. split; [exact Hc |].
    destruct Hcases as [(Hnan & Hle & Hlt) | (Hnan & Hprev)].
    + left. split; [exact Hnan |].
      assert (Hle' : forall j c', nth_error (const_points A) j = Some c' ->
                PrimFloat.leb (computed_distance c r) (computed_distance c' r)
                = true).
      { intros j c' Hj. apply (Hle j). rewrite Hnth, Hj. reflexivity. }
      split; [exact Hle' |].
      intros j c' Hji Hj. apply leb_false_ltb.
      * exact (@fleb_true_not_nan float float_scalar float_LeOrder
                 (computed_distance c r) (computed_distance c' r)
                 (Hle' j c' Hj)).
      * exact Hnan.
      * apply (Hlt j); [exact Hji |]. rewrite Hnth, Hj. reflexivity.
    + right. split; [exact Hnan |].
      intros j c' Hji Hj. apply (Hprev j); [exact Hji |].
      rewrite Hnth, Hj. reflexivity.
  - intros d'. rewrite detect_mapM, Hd. congruence.
Qed.

End DetectBinary64.

(** ** The run of the script in binary64 *)

Section Binary64Run.

Local Close Scope R_scope.

(** Adding the zero vector leaves a corner of the script's cube as it is. *)
Lemma vadd_corner_zero (k : nat) :
  k < 8 -> vadd (corner A_cfg k) zero3 = corner A_cfg k.
Proof.
  intros Hk. do 8 (destruct k as [| k]; [vm_compute; reflexivity |]). lia.
Qed.

Lemma add_rows_zero3 (tx : list nat) (noise : list (vec3 float)) :
  Forall (fun i => i < 8) tx ->
  length noise = length tx ->
  Forall (fun n => n = zero3) noise ->
  add_rows (map (corner A_cfg) tx) noise = map (corner A_cfg) tx.
Proof.
  intros Htx. revert noise.
  induction Htx as [| t tx Ht Htx IH]; intros [| n noise] Hl Hz;
    try discriminate; [reflexivity |].
  inversion Hz as [| ? ? Hn Hz']; subst. simpl.
  rewrite vadd_corner_zero by exact Ht.
  rewrite IH; [reflexivity | simpl in Hl; lia | exact Hz'].
Qed.

(** In binary64, at the amplitude of the script, a corner is nearest to
    itself: its distance is 0 and the seven others are positive. *)
Lemma nearest_corner_cfg (k : nat) :
  k < 8 ->
  argmin (norm_axis1 (sub_row (const_points A_cfg) (corner A_cfg k)))
  = Some k.
Proof.
  intros Hk. do 8 (destruct k as [| k]; [vm_compute; reflexivity |]). lia.
Qed.

(** C3: in the arithmetic of the script and at its amplitude, for every
    transmit sequence with entries in [0, 8), when every noise vector is
    zero the received points are the transmitted points and the detected
    sequence is the transmit sequence. *)
Theorem zero_noise_detect_exact (tx : list nat) (noise : list (vec3 float)) :
  Forall (fun i => i < 8) tx ->
  length noise = length tx ->
  Forall (fun n => n = zero3) noise ->
  exists txd,
    take (const_points A_cfg) tx = Some txd /\
    add_rows txd noise = txd /\
    detect (add_rows txd noise) (const_points A_cfg) = Some tx.
Proof.
  intros Htx Hl Hz. exists (map (corner A_cfg) tx).
  split; [apply take_corners; exact Htx |].
  rewrite (add_rows_zero3 Htx Hl Hz). split; [reflexivity |].
  rewrite detect_mapM, mapM_map.
  rewrite <- (map_id tx) at 2. apply mapM_total.
  intros i Hi. apply nearest_corner_cfg.
  rewrite Forall_forall in Htx. apply Htx. exact Hi.
Qed.

Lemma zero_noise_detect_exact_witness :
  exists txd,
    take (const_points A_cfg) [0; 7; 3] = Some txd /\
    add_rows txd [zero3; zero3; zero3] = txd /\
    detect (add_rows txd [zero3; zero3; zero3]) (const_points A_cfg)
    = Some [0; 7; 3].
Proof.
  apply (@zero_noise_detect_exact [0; 7; 3] [zero3; zero3; zero3]).
  - repeat constructor.
  - reflexivity.
  - repeat constructor.
Defined.

(** The amplitude matters: at [A = 1e-200] (the float written here in
    hexadecimal) the squares of the differences underflow to 0, every
    computed distance is 0 and every symbol is detected as 0, with no noise
    at all. *)
Lemma zero_noise_underflow :
  detect [corner 0x1.87e92154ef7acp-665%float 7;
          corner 0x1.87e92154ef7acp-665%float 3;
          corner 0x1.87e92154ef7acp-665%float 0]
         (const_points 0x1.87e92154ef7acp-665%float)
  = Some [0; 0; 0].
Proof. vm_compute. reflexivity. Qed.

(** The decision map the script computes, and the signs of its grid. *)
Lemma closest_cfg :
  closest A_cfg
  = Some (map (fun i => map (fun j => quadrant i j) (seq 0 200)) (seq 0 200)).
Proof. vm_compute. reflexivity. Qed.

Lemma grid_cfg_signs :
  map (fun x => (PrimFloat.ltb 0 x, PrimFloat.ltb x 0)) (grid A_cfg)
  = map (fun k => (100 <=? k, k <? 100)) (seq 0 200).
Proof. vm_compute. reflexivity. Qed.

Lemma grid_cfg_length : length (grid A_cfg) = 200.
Proof. vm_compute. reflexivity. Qed.

Lemma grid_cfg_sign (k : nat) (x : float) :
  nth_error (grid A_cfg) k = Some x ->
  k < 200 /\ PrimFloat.ltb 0 x = (100 <=? k) /\ PrimFloat.ltb x 0 = (k <? 100).
Proof.
  intros Hx.
  assert (Hk : k < 200).
  { rewrite <- grid_cfg_length. apply nth_error_Some. congruence. }
  split; [exact Hk |].
  pose proof (f_equal (fun l => nth_error l k) grid_cfg_signs) as H.
  cbv beta in H. rewrite !nth_error_map, Hx, nth_error_seq in H.
  apply Nat.ltb_lt in Hk. rewrite Hk in H. cbn [option_map Nat.add] in H.
  injection H as H1 H2. split; assumption.
Qed.

Lemma quadrant_map_nth (i j : nat) :
  i < 200 -> j < 200 ->
  exists row,
    nth_error (map (fun i => map (fun j => quadrant i j) (seq 0 200))
                   (seq 0 200)) i = Some row /\
    nth_error row j = Some (quadrant i j).
Proof.
  intros Hi Hj. exists (map (fun j => quadrant i j) (seq 0 200)).
  apply Nat.ltb_lt in Hi. apply Nat.ltb_lt in Hj.
  rewrite !nth_error_map, !nth_error_seq, Hi, Hj. split; reflexivity.
Qed.

(** C6: in the map of the slice [z = 0] that the script computes, the
    entry of row [i] and column [j] is the index of a constellation point
    whose x coordinate is [+A] when the abscissa [grid[j]] is positive and
    [-A] when it is negative, and whose y coordinate follows the sign of
    [grid[i]] in the same way: the regions change on the lines [x = 0] and
    [y = 0] only. *)
Theorem closest_boundaries :
  exists cmap,
    closest A_cfg = Some cmap /\
    forall i j x y,
      nth_error (grid A_cfg) i = Some y ->
      nth_error (grid A_cfg) j = Some x ->
      exists row idx c,
        nth_error cmap i = Some row /\
        nth_error row j = Some idx /\
        nth_error (const_points A_cfg) idx = Some c /\
        (PrimFloat.ltb 0 x = true -> vx c = A_cfg) /\
        (PrimFloat.ltb x 0 = true -> vx c = PrimFloat.opp A_cfg) /\
        (PrimFloat.ltb 0 y = true -> vy c = A_cfg) /\
        (PrimFloat.ltb y 0 = true -> vy c = PrimFloat.opp A_cfg).
Proof.
  eexists. split; [exact closest_cfg |].
  intros i j x y Hy Hx.
  destruct (grid_cfg_sign _ Hy) as (Hi & Hyp & Hyn).
  destruct (grid_cfg_sign _ Hx) as (Hj & Hxp & Hxn).
  destruct (quadrant_map_nth Hi Hj) as (row & Hrow & Hidx).
  exists row, (quadrant i j), (corner A_cfg (quadrant i j)).
  split; [exact Hrow |]. split; [exact Hidx |].
  rewrite Hxp, Hxn, Hyp, Hyn. unfold quadrant.
  destruct (Nat.leb_spec 100 i) as [Hi' | Hi'];
    destruct (Nat.leb_spec 100 j) as [Hj' | Hj'];
    (split; [reflexivity |]);
    repeat split; intros H; try reflexivity;
    try discriminate; apply Nat.ltb_lt in H; lia.
Qed.

End Binary64Run.

(** ** The decision map and its grid in binary64 *)

Section Binary64Map.

Local Close Scope R_scope.

(** X2: the decision map the script computes in binary64 is known entry
    by entry: it has 200 rows, row [i] and column [j] hold 4 when only the
    column is in the upper half of the grid ([j >= 100]), 2 when only the
    row is, 6 when both are and 0 when none is.  The labels 1, 3, 5 and 7
    never appear on this slice, where the tie in [z] goes to the lower
    index. *)
Theorem closest_quadrants :
  exists cmap,
    closest A_cfg = Some cmap /\
    length cmap = 200 /\
    (forall i j, i < 200 -> j < 200 ->
       exists row,
         nth_error cmap i = Some row /\ length row = 200 /\
         nth_error row j = Some (quadrant i j)) /\
    Forall (Forall (fun label => In label [0; 2; 4; 6])) cmap.
Proof.
  eexists. split; [exact closest_cfg |].
  split; [rewrite length_map, length_seq; reflexivity |]. split.
  - intros i j Hi Hj. exists (map (fun j => quadrant i j) (seq 0 200)).
    apply Nat.ltb_lt in Hi. apply Nat.ltb_lt in Hj.
    rewrite !nth_error_map, !nth_error_seq, Hi, Hj.
    rewrite length_map, length_seq. repeat split; reflexivity.
  - apply Forall_forall. intros row Hrow.
    apply in_map_iff in Hrow. destruct Hrow as (i & <- & _).
    apply Forall_forall. intros label Hl.
    apply in_map_iff in Hl. destruct Hl as (j & <- & _).
    unfold quadrant. destruct (100 <=? j), (100 <=? i); simpl; auto.
Qed.

Lemma grid_cfg_checks :
  grid_increasing (grid A_cfg) = true /\
  grid_inside (PrimFloat.mul (PrimFloat.opp 2) A_cfg) (PrimFloat.mul 2 A_cfg)
              (grid A_cfg) = true.
Proof. vm_compute. split; reflexivity. Qed.

(** X3: the grid of the decision map, as the script computes it in
    binary64, has 200 abscissas, starts at [-2 * A], ends at [2 * A],
    increases strictly, stays within these two bounds and never meets 0,
    so that no grid point lies on the lines [x = 0] and [y = 0]. *)
Theorem grid_shape :
  length (grid A_cfg) = 200 /\
  nth_error (grid A_cfg) 0 = Some (PrimFloat.mul (PrimFloat.opp 2) A_cfg) /\
  nth_error (grid A_cfg) 199 = Some (PrimFloat.mul 2 A_cfg) /\
  (forall j k x y, j < k ->
     nth_error (grid A_cfg) j = Some x -> nth_error (grid A_cfg) k = Some y ->
     PrimFloat.ltb x y = true) /\
  (forall x, In x (grid A_cfg) ->
     PrimFloat.eqb x 0 = false /\
     PrimFloat.leb (PrimFloat.mul (PrimFloat.opp 2) A_cfg) x = true /\
     PrimFloat.leb x (PrimFloat.mul 2 A_cfg) = true).
Proof.
  destruct grid_cfg_checks as [Hinc Hin].
  split; [exact grid_cfg_length |].
  split; [vm_compute; reflexivity |]. split; [vm_compute; reflexivity |].
  split.
  - intros j k x y Hjk Hx Hy.
    assert (Hk : k < length (grid A_cfg))
      by (apply nth_error_Some; congruence).
    unfold grid_increasing in Hinc. rewrite forallb_forall in Hinc.
    specialize (Hinc j ltac:(apply in_seq; lia)).
    rewrite forallb_forall in Hinc.
    specialize (Hinc k ltac:(apply in_seq; lia)).
    apply Nat.ltb_lt in Hjk. rewrite Hjk in Hinc.
    rewrite (nth_error_nth _ _ nan Hx), (nth_error_nth _ _ nan Hy) in Hinc.
    exact Hinc.
  - intros x Hx. unfold grid_inside in Hin. rewrite forallb_forall in Hin.
    specialize (Hin x Hx).
    apply andb_prop in Hin. destruct Hin as [Hin Hhi].
    apply andb_prop in Hin. destruct Hin as [Hz Hlo].
    apply negb_true_iff in Hz. auto.
Qed.

End Binary64Map.

(** ** A run without noise in binary64 *)

Section Binary64ZeroNoise.

Local Close Scope R_scope.

Variable RS : RandomState float.

(** A finite float is a zero or has a sign, a mantissa and an exponent. *)
Lemma is_finite_spec (z : float) :
  PrimFloat.is_finite z = true ->
  (exists s, Prim2SF z = S754_zero s)
  \/ (exists s m e, Prim2SF z = S754_finite s m e).
Proof.
  unfold PrimFloat.is_finite. intros H. apply negb_true_iff in H.
  apply orb_false_elim in H. destruct H as [Hnan Hinf].
  rewrite is_nan_spec in Hnan.
  unfold PrimFloat.is_infinity in Hinf.
  rewrite FloatAxioms.eqb_spec, abs_spec in Hinf.
  destruct (Prim2SF z) as [s | s | | s m e]; try discriminate; eauto.
Qed.

(** [0 + 0 * z] is [0] for every finite [z]: the product is a zero of
    either sign and the sum with [+0] is [+0]. *)
Lemma zero_scale_sample (z : float) :
  PrimFloat.is_finite z = true ->
  PrimFloat.add 0 (PrimFloat.mul 0 z) = 0%float.
Proof.
  intros Hz.
  assert (Hm : exists s, Prim2SF (PrimFloat.mul 0 z) = S754_zero s).
  { rewrite mul_spec. change (Prim2SF 0) with (S754_zero false).
    destruct (is_finite_spec z Hz) as [[s ->] | (s & m & e & ->)];
      simpl; eauto. }
  destruct Hm as [s Hm].
  rewrite <- (SF2Prim_Prim2SF (PrimFloat.mul 0 z)), Hm.
  destruct s; vm_compute; reflexivity.
Qed.

Hypothesis draws_finite :
  forall g, PrimFloat.is_finite (fst (draw_gauss RS g)) = true.

Lemma normal_zero_scale (rows : nat) (g : rng RS) :
  Forall (fun n => n = zero3) (fst (normal RS 0%float 0%float rows g)).
Proof.
  revert g; induction rows as [| k IH]; intros g; cbn [normal];
    [constructor |].
  unfold normal_row, normal1.
  pose proof (draws_finite g) as H1.
  destruct (draw_gauss RS g) as [z1 g1].
  pose proof (draws_finite g1) as H2.
  destruct (draw_gauss RS g1) as [z2 g2].
  pose proof (draws_finite g2) as H3.
  destruct (draw_gauss RS g2) as [z3 g3].
  specialize (IH g3). destruct (normal RS 0%float 0%float k g3) as [rs g4].
  cbn [fst] in *. constructor; [| exact IH].
  cbn [fadd fmul float_scalar].
  rewrite !zero_scale_sample by assumption. reflexivity.
Qed.

(** X6: a whole run in binary64 at the amplitude of the script with
    [N0 = 0], for every [N] and every state of a generator whose normal
    samples are finite: the standard deviation is 0, every noise vector is
    zero, the received points are the transmitted points, the detected
    indices are the transmitted indices and the error count is 0. *)
Theorem simulate_zero_noise (N : nat) (g : rng RS) :
  exists run,
    simulate RS A_cfg 0%float N g = Some run /\
    sigma 0%float = 0%float /\
    Forall (fun n => n = zero3) (noise run) /\
    rx_data run = tx_data run /\
    rx_index run = tx_index run /\
    errors run = 0.
Proof.
  destruct (simulate_eq RS A_cfg 0%float N g) as (rxi & Hrxi & Hrun).
  pose proof (randint_length RS 0 M N g) as Htx.
  pose proof (@randint_range _ RS 0 M N g ltac:(unfold M; lia)) as Hrange.
  assert (Hs : sigma 0%float = 0%float) by (vm_compute; reflexivity).
  change (@of_nat float float_scalar 0) with 0%float in *.
  rewrite Hs in Hrxi, Hrun.
  pose proof (normal_length RS 0%float 0%float N (snd (randint RS 0 M N g)))
    as Hnz.
  pose proof (normal_zero_scale N (snd (randint RS 0 M N g))) as Hz.
  set (txi := fst (randint RS 0 M N g)) in *.
  set (nz := fst (normal RS 0%float 0%float N _)) in *.
  assert (Hlt : Forall (fun i => i < 8) txi).
  { eapply Forall_impl; [| exact Hrange]. unfold M. simpl. intros; lia. }
  assert (Hadd : add_rows (map (corner A_cfg) txi) nz = map (corner A_cfg) txi).
  { apply add_rows_zero3; [exact Hlt | congruence | exact Hz]. }
  rewrite Hadd in Hrxi, Hrun.
  assert (Hdet : detect (map (corner A_cfg) txi) (const_points A_cfg)
                 = Some txi).
  { rewrite detect_mapM, mapM_map.
    rewrite <- (map_id txi) at 2. apply mapM_total.
    intros i Hi. apply nearest_corner_cfg.
    rewrite Forall_forall in Hlt. apply Hlt. exact Hi. }
  rewrite Hdet in Hrxi. injection Hrxi as <-.
  assert (He : np_sum (ne_rows txi txi) = 0).
  { apply np_sum_zero. apply ne_rows_false; reflexivity. }
  rewrite He in Hrun.
  eexists. split; [exact Hrun |].
  cbn [noise rx_data tx_data rx_index tx_index errors].
  repeat (split; [assumption || reflexivity |]). reflexivity.
Qed.

End Binary64ZeroNoise.

Lemma lcg_float_finite (g : rng lcg_float) :
  PrimFloat.is_finite (fst (draw_gauss lcg_float g)) = true.
Proof.
  cbn [draw_gauss lcg_float fst].
  assert (H : (g mod 7 < 7)%nat) by (apply Nat.mod_upper_bound; lia).
  destruct (g mod 7)%nat as [| [| [| [| [| [| [| k]]]]]]];
    try (vm_compute; reflexivity). lia.
Qed.

Lemma simulate_zero_noise_witness :
  exists run,
    simulate lcg_float A_cfg 0%float 4 7%nat = Some run /\
    sigma 0%float = 0%float /\
    Forall (fun n => n = zero3) (noise run) /\
    rx_data run = tx_data run /\
    rx_index run = tx_index run /\
    errors run = 0%nat.
Proof. apply (@simulate_zero_noise lcg_float lcg_float_finite 4 7%nat). Defined.
